(** * The /ask-jiji request pipeline of src/server.js

    A shallow embedding of the Express handler [app.post("/ask-jiji")], of
    the in-memory rate limiter [isRateLimited] and of [getClientIp], followed
    by the properties of the specification that concern them.

    Modelling choices, all read off src/server.js:
    - a JavaScript string is the list of its UTF-16 code units, so that
      [String.prototype.trim] and [.length] mean what they mean in the
      engine;
    - [rateLimitStore] (a [Map] keyed by string) is a [gmap]; the entry object
      is only reachable through the map, so [entry.count += 1] is an insert of
      the updated record;
    - the handler runs in a small monad: a state (rate-limit table, number of
      UUIDs drawn, response headers and status, log of collaborator calls)
      and an early exit for each [return res...json(...)];
    - the Supabase client, [Date.now()] and [crypto.randomUUID()] are oracles
      of an [environment]; the client's methods answer with the
      [{ data, error }] objects of supabase-js (they do not throw). *)

From Stdlib Require Import ZArith NArith Lia Ascii String SpecFloat.
From stdpp Require Import base option list gmap pretty.

Local Open Scope Z_scope.

(** ** JavaScript values *)

Module JS.

(** A string, as its UTF-16 code units. *)
Definition jsstring : Type := list N.

(** An ASCII literal of the source as a [jsstring]. *)
Definition lit (s : string) : jsstring :=
  map N_of_ascii (list_ascii_of_string s).

(** The values [JSON.parse] and the collaborators hand to the handler,
    with [undefined] for an absent property. *)
#[warnings="-register-all"]
Inductive jsval : Type :=
| JUndefined
| JNull
| JBool (b : bool)
| JNum (x : spec_float)
| JStr (s : jsstring)
| JArr (items : list jsval)
| JObj (fields : list (jsstring * jsval)).

Inductive jstype : Type :=
| TUndefined | TObject | TBoolean | TNumber | TString.

(** [typeof v] *)
Definition typeof (v : jsval) : jstype :=
  match v with
  | JUndefined => TUndefined
  | JNull => TObject
  | JBool _ => TBoolean
  | JNum _ => TNumber
  | JStr _ => TString
  | JArr _ => TObject
  | JObj _ => TObject
  end.

Definition is_string (v : jsval) : bool :=
  match typeof v with TString => true | _ => false end.

(** ToBoolean on strings: only the empty string is falsy. *)
Definition truthy_string (s : jsstring) : bool :=
  match s with [] => false | _ :: _ => true end.

(** ToBoolean *)
Definition truthy (v : jsval) : bool :=
  match v with
  | JUndefined | JNull => false
  | JBool b => b
  | JNum (S754_zero _) | JNum S754_nan => false
  | JNum _ => true
  | JStr s => truthy_string s
  | JArr _ | JObj _ => true
  end.

(** ToBoolean of a value that is a string or [undefined]. *)
Definition truthy_opt (o : option jsstring) : bool :=
  match o with
  | Some s => truthy_string s
  | None => false
  end.

(** Own-property lookup in a parsed object (the first binding of the
    association list is the property's value). *)
Fixpoint assoc (k : jsstring) (fields : list (jsstring * jsval)) : jsval :=
  match fields with
  | [] => JUndefined
  | (k', v) :: rest => if decide (k = k') then v else assoc k rest
  end.

(** [v.k] for a property [k] that no prototype defines: the own property
    of an object, [undefined] on every other value. *)
Definition get_prop (v : jsval) (k : jsstring) : jsval :=
  match v with
  | JObj fields => assoc k fields
  | _ => JUndefined
  end.

(** [v?.k] *)
Definition get_prop_opt (v : jsval) (k : jsstring) : jsval :=
  match v with
  | JUndefined | JNull => JUndefined
  | _ => get_prop v k
  end.

(** [a || b] *)
Definition js_or (a b : jsval) : jsval := if truthy a then a else b.

(** The characters of a value already known to be a string. *)
Definition str_of (v : jsval) : jsstring :=
  match v with
  | JStr s => s
  | _ => []
  end.

(** White space and line terminators of ECMAScript (all in the BMP, so a
    code unit decides): TAB, LF, VT, FF, CR, SP, NBSP, U+1680,
    U+2000..U+200A, LS, PS, U+202F, U+205F, U+3000 and the BOM. *)
Definition is_space (c : N) : bool :=
  ((9 <=? c) && (c <=? 13) || (c =? 32) || (c =? 160) || (c =? 5760)
   || (8192 <=? c) && (c <=? 8202) || (c =? 8232) || (c =? 8233)
   || (c =? 8239) || (c =? 8287) || (c =? 12288) || (c =? 65279))%N.

Fixpoint trimStart (s : jsstring) : jsstring :=
  match s with
  | [] => []
  | c :: rest => if is_space c then trimStart rest else s
  end.

Definition trimEnd (s : jsstring) : jsstring :=
  reverse (trimStart (reverse s)).

(** [s.trim()] *)
Definition trim (s : jsstring) : jsstring := trimEnd (trimStart s).

(** The part of [s] before its first comma: [s.split(",")[0]]. *)
Fixpoint before_comma (s : jsstring) : jsstring :=
  match s with
  | [] => []
  | c :: rest => if (c =? 44)%N then [] else c :: before_comma rest
  end.

End JS.

Import JS.

(** ** The rate limiter (server.js, lines 36-58) *)

Definition RATE_LIMIT_WINDOW_MS : Z := 60 * 1000.
Definition RATE_LIMIT_MAX_REQUESTS : Z := 30.

Record entry : Type := Entry { windowStart : Z; count : Z }.

(** The window a first or late call opens: [{ windowStart: now, count: 1 }]. *)
Definition new_window (now : Z) : entry := Entry now 1.

(** [isRateLimited(ip)], with [now] the reading of [Date.now()] on line 44
    and the table passed explicitly. The first test of the source,
    [!entry || now - entry.windowStart > RATE_LIMIT_WINDOW_MS], is the [None]
    case and the first [if]. *)
Definition isRateLimited (now : Z) (ip : jsstring)
    (rateLimitStore : gmap jsstring entry) : bool * gmap jsstring entry :=
  match rateLimitStore !! ip with
  | None => (false, <[ip := new_window now]> rateLimitStore)
  | Some e =>
      if now - windowStart e >? RATE_LIMIT_WINDOW_MS then
        (false, <[ip := new_window now]> rateLimitStore)
      else
        let e' := Entry (windowStart e) (count e + 1) in
        (count e' >? RATE_LIMIT_MAX_REQUESTS, <[ip := e']> rateLimitStore)
  end.

(** A run of calls, each with its key and clock reading; the answers in
    order and the table at the end. *)
Fixpoint run_calls (calls : list (jsstring * Z))
    (store : gmap jsstring entry) : list bool * gmap jsstring entry :=
  match calls with
  | [] => ([], store)
  | (ip, now) :: rest =>
      let (r, store') := isRateLimited now ip store in
      let (rs, store'') := run_calls rest store' in
      (r :: rs, store'')
  end.

(** ** Collaborators *)

(** The [error] object of a supabase-js answer. *)
Record collab_error : Type := CollabError { message : jsstring }.

Record user : Type := User { user_id : jsstring; user_metadata : jsval }.

(** [{ data: { user }, error }] of [auth.getUser()] *)
Record auth_response : Type :=
  AuthResponse { auth_user : option user; auth_error : option collab_error }.

(** [{ id, full_name }] *)
Record profile_payload : Type :=
  ProfilePayload { p_id : jsstring; p_full_name : jsval }.

(** A row of [resources] as selected on line 115; [description] is the only
    nullable column (db/schema.sql). *)
Record resource : Type := Resource {
  r_id : jsstring;
  r_title : jsstring;
  r_description : option jsstring;
  r_type : jsstring;
  r_storage_path : jsstring
}.

(** [{ data: resources, error }] of the select *)
Record select_response : Type :=
  SelectResponse { sel_data : option (list resource);
                   sel_error : option collab_error }.

(** The client [createClient] returns, reduced to the calls of the handler. *)
Record supabase_client : Type := SupabaseClient {
  auth_getUser : auth_response;
  profiles_upsert : profile_payload -> option collab_error;
  resources_select : jsstring -> nat -> select_response;
  queries_insert : jsstring -> jsstring -> option collab_error;
  storage_getPublicUrl : jsstring -> jsstring
}.

(** What the handler reads from outside during one request. *)
Record environment : Type := Environment {
  dateNow : Z;
  randomUUID : nat -> jsstring;
  supabaseUrl : option jsstring;
  supabaseAnonKey : option jsstring;
  createClient :
    option jsstring -> option jsstring -> option jsstring -> supabase_client
}.

(** The calls made to the collaborators, in the order they are issued. *)
Inductive event : Type :=
| AuthGetUser (authorization : option jsstring)
| ProfilesUpsert (payload : profile_payload)
| ResourcesSelect (filter : jsstring) (limit : nat)
| QueriesInsert (profile_id query_text : jsstring)
| StorageGetPublicUrl (path : jsstring).

(** ** Requests and responses *)

Record request : Type := Request {
  x_forwarded_for : option jsstring;
  authorization : option jsstring;
  req_ip : option jsstring;
  req_body : jsval
}.

(** An entry of [resources] in the answer. *)
Record resource_link : Type := ResourceLink {
  l_id : jsstring;
  l_title : jsstring;
  l_description : option jsstring;
  l_type : jsstring;
  l_url : jsstring
}.

Inductive body : Type :=
| ErrorBody (error : jsstring) (details : option jsstring)
| AnswerBody (requestId answer : jsstring) (resources : list resource_link).

Record response : Type := Response {
  status : Z;
  headers : gmap jsstring jsstring;
  payload : body
}.

(** ** The handler monad

    The handler touches [rateLimitStore] only in its synchronous prefix
    (lines 61-67), before its first [await]; other requests can run only at
    the awaits, so the table a request sees is the table at its entry and
    the table it leaves is the one right after line 65. *)

Record hstate : Type := HState {
  rateLimitStore : gmap jsstring entry;
  uuidsDrawn : nat;
  resHeaders : gmap jsstring jsstring;
  resStatus : Z;
  trace : list event
}.

(** A step either goes on with a value or has sent the response body. *)
Inductive step (A : Type) : Type :=
| Next (a : A)
| Sent (b : body).
Arguments Next {A} a.
Arguments Sent {A} b.

Definition M (A : Type) : Type := hstate -> step A * hstate.

Definition ret {A} (a : A) : M A := fun s => (Next a, s).

Definition bind {A B} (m : M A) (k : A -> M B) : M B :=
  fun s =>
    match m s with
    | (Next a, s') => k a s'
    | (Sent b, s') => (Sent b, s')
    end.

Declare Scope handler_scope.
Delimit Scope handler_scope with handler.
Notation "x <- m ;; k" := (bind m (fun x => k))
  (at level 100, m at next level, right associativity) : handler_scope.
Notation "m ;; k" := (bind m (fun _ => k))
  (at level 100, right associativity) : handler_scope.
Local Open Scope handler_scope.

(** [crypto.randomUUID()] *)
Definition drawUUID (env : environment) : M jsstring :=
  fun s =>
    (Next (randomUUID env (uuidsDrawn s)),
     HState (rateLimitStore s) (S (uuidsDrawn s)) (resHeaders s) (resStatus s)
            (trace s)).

(** [res.setHeader(name, value)] *)
Definition setHeader (name value : jsstring) : M unit :=
  fun s =>
    (Next tt,
     HState (rateLimitStore s) (uuidsDrawn s) (<[name := value]> (resHeaders s))
            (resStatus s) (trace s)).

(** [res.status(code)] *)
Definition set_status (code : Z) : M unit :=
  fun s =>
    (Next tt,
     HState (rateLimitStore s) (uuidsDrawn s) (resHeaders s) code (trace s)).

(** [return res.json(b)] *)
Definition json {A} (b : body) : M A := fun s => (Sent b, s).

(** A call to a collaborator, logged. *)
Definition call {A} (ev : event) (answer : A) : M A :=
  fun s =>
    (Next answer,
     HState (rateLimitStore s) (uuidsDrawn s) (resHeaders s) (resStatus s)
            (trace s ++ [ev])).

(** [isRateLimited(ip)] on the shared table *)
Definition checkRateLimit (env : environment) (ip : jsstring) : M bool :=
  fun s =>
    let (limited, store') := isRateLimited (dateNow env) ip (rateLimitStore s) in
    (Next limited,
     HState store' (uuidsDrawn s) (resHeaders s) (resStatus s) (trace s)).

(** ** server.js *)

Definition MAX_QUERY_LENGTH : nat := 500.

(** [buildSupabaseClient(authHeader)]: the header is forwarded only when it
    is truthy. *)
Definition buildSupabaseClient (env : environment)
    (authHeader : option jsstring) : supabase_client :=
  createClient env (supabaseUrl env) (supabaseAnonKey env)
    (if truthy_opt authHeader then authHeader else None).

(** [req.headers["x-forwarded-for"]?.split(",")[0]?.trim() || req.ip] *)
Definition getClientIp (req : request) : option jsstring :=
  match x_forwarded_for req with
  | Some h =>
      let first := trim (before_comma h) in
      if truthy_string first then Some first else req_ip req
  | None => req_ip req
  end.

(** The bodies of the seven failure answers. *)
Definition msg_rate_limited : jsstring :=
  lit "Too many requests. Please retry later.".
Definition msg_not_a_string : jsstring :=
  lit "Query must be a non-empty string.".
Definition msg_bad_length : jsstring :=
  lit "Query must be between 3 and " ++ lit (pretty MAX_QUERY_LENGTH)
    ++ lit " characters.".
Definition msg_misconfigured : jsstring :=
  lit "Server misconfiguration. Missing Supabase environment variables.".
Definition msg_unauthorized : jsstring :=
  lit "Unauthorized. Provide a valid Supabase JWT in the Authorization header.".
Definition msg_profile : jsstring := lit "Failed to sync profile.".
Definition msg_resources : jsstring := lit "Failed to fetch resources.".
Definition msg_save : jsstring := lit "Failed to save query.".

(** [return res.status(code).json({ error, details })] *)
Definition fail {A} (code : Z) (error : jsstring) (details : option jsstring)
    : M A :=
  set_status code ;; json (ErrorBody error details).

(** Line 65: [clientIp && isRateLimited(clientIp)]; a falsy key skips the
    call. *)
Definition rateCheck (env : environment) (clientIp : option jsstring)
    : M bool :=
  match clientIp with
  | Some ip => if truthy_string ip then checkRateLimit env ip else ret false
  | None => ret false
  end.

(** Line 71: [!query || typeof query !== "string"] *)
Definition not_a_string (query : jsval) : bool :=
  negb (truthy query) || negb (is_string query).

(** Line 79: [trimmedQuery.length < 3 || trimmedQuery.length > MAX_QUERY_LENGTH] *)
Definition bad_length (trimmedQuery : jsstring) : bool :=
  (length trimmedQuery <? 3)%nat || (MAX_QUERY_LENGTH <? length trimmedQuery)%nat.

(** Line 69: [const { query } = req.body || {}] *)
Definition query_of (req : request) : jsval :=
  get_prop (js_or (req_body req) (JObj [])) (lit "query").

(** Lines 69-83: the query of the body, trimmed, or a 400. *)
Definition validateQuery (req : request) : M jsstring :=
  let query := query_of req in
  if not_a_string query then fail 400 msg_not_a_string None
  else
    let trimmedQuery := trim (str_of query) in
    if bad_length trimmedQuery then fail 400 msg_bad_length None
    else ret trimmedQuery.

(** Line 85: [!supabaseUrl || !supabaseAnonKey] *)
Definition misconfigured (env : environment) : bool :=
  negb (truthy_opt (supabaseUrl env)) || negb (truthy_opt (supabaseAnonKey env)).

(** Line 116: the filter handed to [.or(...)]. *)
Definition or_filter (trimmedQuery : jsstring) : jsstring :=
  lit "title.ilike.%" ++ trimmedQuery ++ lit "%,description.ilike.%"
    ++ trimmedQuery ++ lit "%".

(** Line 146; code unit 34 is the double quote. *)
Definition responseText (trimmedQuery : jsstring) : jsstring :=
  lit "Here's a quick overview for: " ++ [34%N] ++ trimmedQuery ++ [34%N]
    ++ lit ". Review the resources below for deeper learning.".

(** Lines 105-108 *)
Definition profilePayload (u : user) : profile_payload :=
  ProfilePayload (user_id u)
    (js_or (get_prop_opt (user_metadata u) (lit "full_name")) JNull).

(** Lines 148-160: [(resources || []).map(...)]; [getPublicUrl] is a local,
    synchronous computation of the client. *)
Definition resourcesWithLinks (supabase : supabase_client)
    (resources : option (list resource)) : list resource_link :=
  map (fun r =>
         ResourceLink (r_id r) (r_title r) (r_description r) (r_type r)
           (storage_getPublicUrl supabase (r_storage_path r)))
      (default [] resources).

(** Lines 105-166, once the caller is known. The two calls of [Promise.all]
    are both issued, in the order of the array, before either answer is
    looked at. *)
Definition answer (supabase : supabase_client) (requestId : jsstring)
    (u : user) (trimmedQuery : jsstring) : M Empty_set :=
  profileError <- call (ProfilesUpsert (profilePayload u))
                    (profiles_upsert supabase (profilePayload u)) ;;
  sel <- call (ResourcesSelect (or_filter trimmedQuery) 5)
           (resources_select supabase (or_filter trimmedQuery) 5) ;;
  match profileError with
  | Some e => fail 500 msg_profile (Some (message e))
  | None =>
  match sel_error sel with
  | Some e => fail 500 msg_resources (Some (message e))
  | None =>
  insertError <- call (QueriesInsert (user_id u) trimmedQuery)
                   (queries_insert supabase (user_id u) trimmedQuery) ;;
  match insertError with
  | Some e => fail 500 msg_save (Some (message e))
  | None =>
      json (AnswerBody requestId (responseText trimmedQuery)
              (resourcesWithLinks supabase (sel_data sel)))
  end end end.

(** [app.post("/ask-jiji", async (req, res) => ...)], lines 60-167. *)
Definition ask_jiji (env : environment) (req : request) : M Empty_set :=
  requestId <- drawUUID env ;;
  setHeader (lit "X-Request-Id") requestId ;;
  limited <- rateCheck env (getClientIp req) ;;
  if limited then fail 429 msg_rate_limited None
  else
  trimmedQuery <- validateQuery req ;;
  if misconfigured env then fail 500 msg_misconfigured None
  else
  let authHeader := authorization req in
  let supabase := buildSupabaseClient env authHeader in
  auth <- call (AuthGetUser (if truthy_opt authHeader then authHeader else None))
            (auth_getUser supabase) ;;
  match auth_error auth, auth_user auth with
  | None, Some u => answer supabase requestId u trimmedQuery
  | _, _ => fail 401 msg_unauthorized None
  end.

(** What Express holds when the handler is entered: the shared table, the
    count of UUIDs drawn so far, and the headers the middleware has already
    put on [res]. The status starts at 200 and the call log empty. *)
Definition enter (store : gmap jsstring entry) (drawn : nat)
    (hdrs : gmap jsstring jsstring) : hstate :=
  HState store drawn hdrs 200 [].

(** One request, from entry to the response sent. *)
Definition handle (env : environment) (req : request) (s0 : hstate)
    : response * hstate :=
  match ask_jiji env req s0 with
  | (Sent b, s) => (Response (resStatus s) (resHeaders s) b, s)
  | (Next absurd, _) => match absurd with end
  end.

(** The response to a request that enters with the given table, UUID count
    and middleware headers, and the state it leaves. *)
Definition respond (env : environment) (req : request)
    (store : gmap jsstring entry) (drawn : nat)
    (hdrs : gmap jsstring jsstring) : response :=
  fst (handle env req (enter store drawn hdrs)).

Definition leave (env : environment) (req : request)
    (store : gmap jsstring entry) (drawn : nat)
    (hdrs : gmap jsstring jsstring) : hstate :=
  snd (handle env req (enter store drawn hdrs)).

(** ** Vocabulary of the statements *)

(** A call at [now] opens a window for an entry that is absent or older than
    the window length. *)
Definition opens_window (now : Z) (e : option entry) : Prop :=
  match e with
  | None => True
  | Some e => now - windowStart e > RATE_LIMIT_WINDOW_MS
  end.

(** The answers given to the calls of key [k], in order. *)
Fixpoint answers_for (k : jsstring) (calls : list (jsstring * Z))
    (rs : list bool) : list bool :=
  match calls, rs with
  | (ip, _) :: calls', r :: rs' =>
      if decide (ip = k) then r :: answers_for k calls' rs'
      else answers_for k calls' rs'
  | _, _ => []
  end.

(** The number of calls of key [k]. *)
Fixpoint calls_of (k : jsstring) (calls : list (jsstring * Z)) : nat :=
  match calls with
  | [] => 0
  | (ip, _) :: calls' =>
      if decide (ip = k) then S (calls_of k calls') else calls_of k calls'
  end.

(** The outcome of the rate gate of line 65 on the table [store]. *)
Definition rate_limited (env : environment) (req : request)
    (store : gmap jsstring entry) : bool :=
  match getClientIp req with
  | Some ip => truthy_string ip && (isRateLimited (dateNow env) ip store).1
  | None => false
  end.

(** The query passes lines 71-83. *)
Definition valid_query (req : request) : bool :=
  negb (not_a_string (query_of req))
  && negb (bad_length (trim (str_of (query_of req)))).

(** The client the handler builds for a request. *)
Definition client_of (env : environment) (req : request) : supabase_client :=
  buildSupabaseClient env (authorization req).

(** The credential of the request does not verify to a user: the test of
    line 99, [authError || !user]. *)
Definition lacks_credential (env : environment) (req : request) : Prop :=
  auth_error (auth_getUser (client_of env req)) ≠ None
  ∨ auth_user (auth_getUser (client_of env req)) = None.

(** The three failures of a downstream collaborator. *)
Definition downstream_failure (error : jsstring) : Prop :=
  error = msg_profile ∨ error = msg_resources ∨ error = msg_save.

(** The failures raised before any data collaborator is called. *)
Definition gate_failure (error : jsstring) : Prop :=
  error = msg_rate_limited ∨ error = msg_not_a_string
  ∨ error = msg_bad_length ∨ error = msg_misconfigured
  ∨ error = msg_unauthorized.

(** Every code unit of [s] is white space. *)
Definition all_space (s : jsstring) : Prop :=
  Forall (fun c => is_space c = true) s.

(** [s] neither starts nor ends with white space. *)
Definition no_outer_space (s : jsstring) : Prop :=
  (∀ c, head s = Some c → is_space c = false)
  ∧ (∀ c, last s = Some c → is_space c = false).

(** [s] holds no comma. *)
Definition comma_free (s : jsstring) : Prop := 44%N ∉ s.

(** The calls of key [k] among [calls], in order. *)
Definition calls_to (k : jsstring) (calls : list (jsstring * Z))
    : list (jsstring * Z) :=
  filter (fun c => c.1 = k) calls.

(** The request with its Authorization header replaced. *)
Definition with_authorization (h : option jsstring) (req : request)
    : request :=
  Request (x_forwarded_for req) h (req_ip req) (req_body req).

(** Requests served in the order of their arrival, each with the
    environment it meets; the table and the count of UUIDs drawn pass from
    one to the next. *)
Fixpoint serve_all (arrivals : list (environment * request))
    (store : gmap jsstring entry) (drawn : nat)
    (hdrs : gmap jsstring jsstring) : list response :=
  match arrivals with
  | [] => []
  | (env, req) :: rest =>
      respond env req store drawn hdrs
      :: serve_all rest (rateLimitStore (leave env req store drawn hdrs))
           (uuidsDrawn (leave env req store drawn hdrs)) hdrs
  end.

(** ** Sample data *)

Module Sample.

Definition alice : user :=
  User (lit "6f1c") (JObj [(lit "full_name", JStr (lit "Alice"))]).

Definition deck : resource :=
  Resource (lit "r-1") (lit "RAG 101 Deck") (Some (lit "Introductory slides"))
    (lit "ppt") (lit "rag-101.pptx").

Definition video : resource :=
  Resource (lit "r-2") (lit "RAG Walkthrough Video") None
    (lit "video") (lit "rag-walkthrough.mp4").

Definition boom (what : string) : collab_error := CollabError (lit what).

(** A client whose calls fail as the three flags say, and which knows the
    caller only when an Authorization header was forwarded. *)
Definition client (profile_fails search_fails insert_fails : bool)
    (authHeader : option jsstring) : supabase_client :=
  SupabaseClient
    (match authHeader with
     | Some _ => AuthResponse (Some alice) None
     | None => AuthResponse None (Some (boom "invalid JWT"))
     end)
    (fun _ => if profile_fails then Some (boom "profiles: timeout") else None)
    (fun _ _ =>
       if search_fails then SelectResponse None (Some (boom "resources: timeout"))
       else SelectResponse (Some [deck; video]) None)
    (fun _ _ => if insert_fails then Some (boom "queries: timeout") else None)
    (fun path => lit "https://cdn.example/learning-resources/" ++ path).

Definition env (profile_fails search_fails insert_fails : bool)
    : environment :=
  Environment 1700000000000 (fun n => lit "uuid-" ++ lit (pretty n))
    (Some (lit "https://db.example")) (Some (lit "anon-key"))
    (fun _ _ authHeader =>
       client profile_fails search_fails insert_fails authHeader).

Definition healthy : environment := env false false false.

(** A request from 10.0.0.7 with the given Authorization header and
    [query]. *)
Definition ask (authHeader : option jsstring) (query : jsval) : request :=
  Request None authHeader (Some (lit "10.0.0.7"))
    (JObj [(lit "query", query)]).

Definition bearer : option jsstring := Some (lit "Bearer good").

(** A request with no forwarded address and no peer address. *)
Definition anonymous (query : jsval) : request :=
  Request None bearer None (JObj [(lit "query", query)]).

Definition rag : jsval := JStr (lit "  RAG basics  ").

(** Thirty-one calls of one key inside a minute, another key in between. *)
Definition burst : list (jsstring * Z) :=
  (lit "10.0.0.9", 5000) :: replicate 30 (lit "10.0.0.7", 60000).

End Sample.

(** Unfold one run of the handler down to its tests. *)
Ltac unfold_handler :=
  unfold respond, leave, client_of, handle, enter, ask_jiji, answer,
    validateQuery, rateCheck, checkRateLimit, fail, bind, drawUUID, setHeader, set_status,
    json, call, ret in *;
  cbn [fst snd rateLimitStore uuidsDrawn resHeaders resStatus trace] in *.

(** Split on every test the run goes through. *)
Ltac split_handler :=
  repeat match goal with
    | |- context [match ?x with _ => _ end] =>
        lazymatch x with
        | context [match _ with _ => _ end] => fail
        | _ => destruct x eqn:?
        end
    end;
  cbn [fst snd status headers payload
       rateLimitStore uuidsDrawn resHeaders resStatus trace] in *.

(** Use the outcomes of the tests wherever the goal still names a test. *)
Ltac settle_tests :=
  repeat match goal with
    | H : ?x = _ |- context [?x] => rewrite H
    end;
  cbn [fst snd andb orb negb].

(** Read a membership in a concrete call log: one case per logged call. *)
Ltac trace_inv H :=
  cbn [app] in H;
  repeat (apply elem_of_cons in H as [H|H];
          [try discriminate H; try (injection H as H; subst) |]);
  try (apply elem_of_nil in H; destruct H).

(** ** The rate limiter *)

Section RateLimiter.

Implicit Types (store : gmap jsstring entry) (k ip : jsstring) (now : Z).

Lemma isRateLimited_other now ip k store :
  ip ≠ k → (isRateLimited now ip store).2 !! k = store !! k.
Proof.
  intros Hne. unfold isRateLimited.
  destruct (store !! ip) as [e|]; [destruct (_ >? _)|];
    simpl; by rewrite lookup_insert_ne.
Qed.

Lemma isRateLimited_opens now k store :
  opens_window now (store !! k) →
  isRateLimited now k store = (false, <[k := new_window now]> store).
Proof.
  unfold isRateLimited, opens_window.
  destruct (store !! k) as [e|]; [|done].
  intros H. destruct (Z.gtb_spec (now - windowStart e) RATE_LIMIT_WINDOW_MS);
    [done | lia].
Qed.

Lemma isRateLimited_within now k store e :
  store !! k = Some e →
  now - windowStart e ≤ RATE_LIMIT_WINDOW_MS →
  isRateLimited now k store =
    (count e + 1 >? RATE_LIMIT_MAX_REQUESTS,
     <[k := Entry (windowStart e) (count e + 1)]> store).
Proof.
  intros Hk Hin. unfold isRateLimited. rewrite Hk.
  destruct (Z.gtb_spec (now - windowStart e) RATE_LIMIT_WINDOW_MS);
    [lia | done].
Qed.

(** Inside a window that started at [t0] with [c] calls counted, the
    [i]-th further call of the key is refused exactly when the count it
    reaches, [c + 1 + i], is over the ceiling. *)
Lemma run_calls_within k t0 :
  ∀ (calls : list (jsstring * Z)) store c,
    store !! k = Some (Entry t0 c) →
    (∀ t, (k, t) ∈ calls → t - t0 ≤ RATE_LIMIT_WINDOW_MS) →
    length (answers_for k calls (run_calls calls store).1) = calls_of k calls
    ∧ ∀ (i : nat) (limited : bool),
        answers_for k calls (run_calls calls store).1 !! i = Some limited →
        limited = (c + 1 + Z.of_nat i >? RATE_LIMIT_MAX_REQUESTS).
Proof.
  induction calls as [|[ip t] calls IH]; intros store c Hk Hin.
  { split; [done | intros i limited H; by destruct i]. }
  simpl. destruct (isRateLimited t ip store) as [r store'] eqn:Hstep.
  destruct (run_calls calls store') as [rs store''] eqn:Hrun. simpl.
  assert (Hrest : ∀ t', (k, t') ∈ calls → t' - t0 ≤ RATE_LIMIT_WINDOW_MS).
  { intros t' Ht'. apply Hin. by right. }
  destruct (decide (ip = k)) as [->|Hne].
  - rewrite (isRateLimited_within t k store (Entry t0 c)) in Hstep;
      [| done | simpl; apply Hin; by left].
    simpl in Hstep. injection Hstep as <- <-.
    destruct (IH (<[k := Entry t0 (c + 1)]> store) (c + 1)) as [Hlen Hans];
      [by rewrite lookup_insert_eq | done |].
    rewrite Hrun in Hlen, Hans. simpl in Hlen, Hans. split.
    + simpl. by rewrite Hlen.
    + intros [|i] limited Hi; simpl in Hi.
      * injection Hi as <-. f_equal. lia.
      * rewrite (Hans i limited Hi). f_equal. lia.
  - destruct (IH store' c) as [Hlen Hans]; [| done |].
    { rewrite <- Hk. replace store' with (isRateLimited t ip store).2
        by (by rewrite Hstep). by apply isRateLimited_other. }
    rewrite Hrun in Hlen, Hans. by split.
Qed.

End RateLimiter.

(** C2. For every client key, from a fresh or expired window, each of the
    first 30 calls made within 60 seconds of the start of the new window is
    allowed ([isRateLimited] answers [false]) and the 31st call in that
    window is denied. Calls of other keys may come in between; the clock
    readings of the key's calls only have to be at most 60000 ms past the
    first one. *)
Theorem rate_limit_thirty_then_denied
    (k : jsstring) (t0 : Z) (rest : list (jsstring * Z))
    (store : gmap jsstring entry) :
  opens_window t0 (store !! k) →
  (∀ t, (k, t) ∈ rest → t - t0 ≤ RATE_LIMIT_WINDOW_MS) →
  let calls := (k, t0) :: rest in
  let answers := answers_for k calls (run_calls calls store).1 in
  length answers = calls_of k calls
  ∧ (∀ i : nat, (i < 30)%nat → (i < length answers)%nat →
       answers !! i = Some false)
  ∧ ((30 < length answers)%nat → answers !! 30%nat = Some true).
Proof.
  intros Hopen Hin calls answers. subst calls answers. simpl.
  rewrite (isRateLimited_opens _ _ _ Hopen).
  destruct (run_calls rest _) as [rs store'] eqn:Hrun. simpl.
  repeat (rewrite decide_True by done). simpl.
  destruct (run_calls_within k t0 rest (<[k := new_window t0]> store) 1)
    as [Hlen Hans]; [by rewrite lookup_insert_eq | done |].
  rewrite Hrun in Hlen, Hans. simpl in Hlen, Hans.
  split; [by rewrite Hlen|]. split.
  - intros [|i] Hi Hlt; [done|]. simpl in *.
    destruct (answers_for k rest rs !! i) as [b|] eqn:Hb.
    + rewrite (Hans i b Hb). f_equal.
      unfold RATE_LIMIT_MAX_REQUESTS. rewrite Z.gtb_ltb. apply Z.ltb_ge. lia.
    + apply lookup_ge_None in Hb. lia.
  - intros Hlt. simpl in *.
    destruct (answers_for k rest rs !! 29%nat) as [b|] eqn:Hb.
    + by rewrite (Hans _ b Hb).
    + apply lookup_ge_None in Hb. lia.
Qed.

Lemma rate_limit_thirty_then_denied_witness :
  let k := lit "10.0.0.7" in
  let calls := (k, 0) :: Sample.burst in
  opens_window 0 ((∅ : gmap jsstring entry) !! k)
  ∧ calls_of k calls = 31%nat
  ∧ answers_for k calls (run_calls calls ∅).1 !! 29%nat = Some false
  ∧ answers_for k calls (run_calls calls ∅).1 !! 30%nat = Some true.
Proof.
  intros k calls.
  destruct (rate_limit_thirty_then_denied k 0 Sample.burst ∅)
    as (Hlen & Hfirst & Hlast).
  - exact I.
  - intros t Ht. unfold Sample.burst in Ht.
    apply elem_of_cons in Ht as [Ht|Ht]; [discriminate Ht|].
    apply elem_of_replicate in Ht as [Ht _]. injection Ht as ->.
    unfold RATE_LIMIT_WINDOW_MS. lia.
  - assert (Hcount : calls_of k calls = 31%nat) by reflexivity.
    fold calls in Hlen, Hfirst, Hlast. rewrite Hcount in Hlen.
    rewrite Hlen in Hfirst, Hlast.
    split; [exact I|]. split; [exact Hcount|].
    split; [apply Hfirst; lia | apply Hlast; lia].
Defined.

(** ** The handler *)

(** C10. A request whose derived client key is empty or absent skips the
    rate-limit check: its answer is not a 429 and the rate-limit table is
    left exactly as it was. *)
Theorem no_key_skips_rate_limit
    (env : environment) (req : request) (store : gmap jsstring entry)
    (drawn : nat) (hdrs : gmap jsstring jsstring) :
  truthy_opt (getClientIp req) = false →
  status (respond env req store drawn hdrs) ≠ 429
  ∧ rateLimitStore (leave env req store drawn hdrs) = store.
Proof.
  intros Hkey. unfold_handler.
  destruct (getClientIp req) as [ip|]; simpl in Hkey; [rewrite Hkey|];
    split_handler; split; (done || lia).
Qed.

Lemma no_key_skips_rate_limit_witness :
  let req := Sample.anonymous Sample.rag in
  truthy_opt (getClientIp req) = false
  ∧ status (respond Sample.healthy req ∅ 0 ∅) ≠ 429
  ∧ rateLimitStore (leave Sample.healthy req ∅ 0 ∅) = ∅.
Proof.
  intros req. split; [reflexivity|].
  apply (no_key_skips_rate_limit Sample.healthy req ∅ 0 ∅). reflexivity.
Defined.

(** C8. Every response of the handler, a success or any of the failures,
    carries an X-Request-Id header whose value is the UUID drawn for this
    request (draw number [drawn] of the generator, which the request then
    advances by one, so the next request gets the next draw); a success
    repeats that value as [requestId]. *)
Theorem every_response_has_request_id
    (env : environment) (req : request) (store : gmap jsstring entry)
    (drawn : nat) (hdrs : gmap jsstring jsstring) :
  headers (respond env req store drawn hdrs) !! lit "X-Request-Id"
    = Some (randomUUID env drawn)
  ∧ uuidsDrawn (leave env req store drawn hdrs) = S drawn
  ∧ ∀ rid ans links,
      payload (respond env req store drawn hdrs) = AnswerBody rid ans links →
      rid = randomUUID env drawn.
Proof.
  unfold_handler. split_handler;
    (split; [by rewrite lookup_insert_eq | split; [done | congruence]]).
Qed.

Lemma every_response_has_request_id_witness :
  headers (respond Sample.healthy (Sample.ask None (JStr (lit "ab"))) ∅ 7 ∅)
    !! lit "X-Request-Id" = Some (lit "uuid-7").
Proof.
  exact (proj1 (every_response_has_request_id Sample.healthy
                  (Sample.ask None (JStr (lit "ab"))) ∅ 7 ∅)).
Defined.

(** The eight error texts are pairwise different, so a body's [error] names
    its outcome. *)
Lemma downstream_not_gate (error : jsstring) :
  downstream_failure error → gate_failure error → False.
Proof.
  unfold downstream_failure, gate_failure.
  intros [-> | [-> | ->] ] [H | [H | [H | [H | H] ] ] ]; vm_compute in H; discriminate H.
Qed.

(** C9. In a failure body, [details] is populated only for the failures of
    a downstream collaborator (profile sync, resource fetch, query log),
    which are answered with 500; the rate-limit, validation,
    misconfiguration and authentication failures never carry it. *)
Theorem details_only_downstream
    (env : environment) (req : request) (store : gmap jsstring entry)
    (drawn : nat) (hdrs : gmap jsstring jsstring)
    (error : jsstring) (details : option jsstring) :
  payload (respond env req store drawn hdrs) = ErrorBody error details →
  (downstream_failure error ∨ gate_failure error)
  ∧ (is_Some details →
       downstream_failure error
       ∧ status (respond env req store drawn hdrs) = 500)
  ∧ (gate_failure error → details = None).
Proof.
  unfold_handler. split_handler; intros [= <- <-];
    unfold downstream_failure, gate_failure;
    (split; [tauto|]); split;
    try (intros [d Hd]; discriminate Hd);
    try (intros _; split; [tauto | reflexivity]);
    try reflexivity;
    intros Hg; exfalso; (eapply downstream_not_gate; [|exact Hg]);
    unfold downstream_failure; tauto.
Qed.

Lemma details_only_downstream_witness :
  let env := Sample.env false false true in
  let req := Sample.ask Sample.bearer Sample.rag in
  payload (respond env req ∅ 0 ∅)
    = ErrorBody msg_save (Some (lit "queries: timeout"))
  ∧ status (respond env req ∅ 0 ∅) = 500.
Proof.
  intros env req.
  assert (Hbody : payload (respond env req ∅ 0 ∅)
                  = ErrorBody msg_save (Some (lit "queries: timeout")))
    by reflexivity.
  split; [exact Hbody|].
  apply (details_only_downstream env req ∅ 0 ∅ msg_save
           (Some (lit "queries: timeout")) Hbody).
  by eexists.
Defined.

(** C6. When the profile upsert fails, the answer is 500 with body
    [{ error: "Failed to sync profile.", details: <the error's message> }]
    and no insert into [queries] is issued, whatever the resource search
    answered. *)
Theorem profile_failure_is_terminal
    (env : environment) (req : request) (store : gmap jsstring entry)
    (drawn : nat) (hdrs : gmap jsstring jsstring)
    (p : profile_payload) (e : collab_error) :
  ProfilesUpsert p ∈ trace (leave env req store drawn hdrs) →
  profiles_upsert (client_of env req) p = Some e →
  status (respond env req store drawn hdrs) = 500
  ∧ payload (respond env req store drawn hdrs)
      = ErrorBody (lit "Failed to sync profile.") (Some (message e))
  ∧ ∀ pid q, QueriesInsert pid q ∉ trace (leave env req store drawn hdrs).
Proof.
  unfold_handler. split_handler; intros Hin Hfail; trace_inv Hin;
    try congruence;
    (split; [reflexivity|]); (split; [unfold msg_profile; congruence|]);
    intros pid q Hq; trace_inv Hq.
Qed.

Lemma profile_failure_is_terminal_witness :
  let env := Sample.env true false false in
  let req := Sample.ask Sample.bearer Sample.rag in
  profiles_upsert (client_of env req) (profilePayload Sample.alice)
    = Some (Sample.boom "profiles: timeout")
  ∧ status (respond env req ∅ 0 ∅) = 500
  ∧ payload (respond env req ∅ 0 ∅)
      = ErrorBody (lit "Failed to sync profile.")
          (Some (lit "profiles: timeout"))
  ∧ ∀ pid q, QueriesInsert pid q ∉ trace (leave env req ∅ 0 ∅).
Proof.
  intros env req. split; [reflexivity|].
  apply (profile_failure_is_terminal env req ∅ 0 ∅
           (profilePayload Sample.alice) (Sample.boom "profiles: timeout")).
  - apply list_elem_of_In. vm_compute. tauto.
  - reflexivity.
Defined.

(** C3, as stated, fails: with both calls of the parallel fetch failing, the
    search was issued and answered with an error, yet the answer is the
    profile-sync failure. *)
Lemma search_failure_masked_by_profile_failure :
  let env := Sample.env true true false in
  let req := Sample.ask Sample.bearer Sample.rag in
  ResourcesSelect (or_filter (lit "RAG basics")) 5
    ∈ trace (leave env req ∅ 0 ∅)
  ∧ sel_error (resources_select (client_of env req)
                 (or_filter (lit "RAG basics")) 5)
      = Some (Sample.boom "resources: timeout")
  ∧ payload (respond env req ∅ 0 ∅)
      = ErrorBody (lit "Failed to sync profile.")
          (Some (lit "profiles: timeout")).
Proof.
  split; [|split; reflexivity].
  apply list_elem_of_In. vm_compute. tauto.
Qed.

(** C3, amended. When the resource search fails and the profile upsert
    issued with it succeeded, the answer is 500 with error
    "Failed to fetch resources." and the search error's message as details,
    and no insert into [queries] is issued. *)
Theorem search_failure_after_profile_success
    (env : environment) (req : request) (store : gmap jsstring entry)
    (drawn : nat) (hdrs : gmap jsstring jsstring)
    (filter : jsstring) (limit : nat) (e : collab_error) :
  ResourcesSelect filter limit ∈ trace (leave env req store drawn hdrs) →
  sel_error (resources_select (client_of env req) filter limit) = Some e →
  (∀ p, ProfilesUpsert p ∈ trace (leave env req store drawn hdrs) →
        profiles_upsert (client_of env req) p = None) →
  status (respond env req store drawn hdrs) = 500
  ∧ payload (respond env req store drawn hdrs)
      = ErrorBody (lit "Failed to fetch resources.") (Some (message e))
  ∧ ∀ pid q, QueriesInsert pid q ∉ trace (leave env req store drawn hdrs).
Proof.
  unfold_handler. split_handler; intros Hin Hfail Hprofile; trace_inv Hin;
    try congruence;
    try (split; [reflexivity|]; split; [unfold msg_resources; congruence|];
         intros pid q Hq; trace_inv Hq).
  all: match goal with
       | Hp : profiles_upsert _ ?p = Some _ |- _ =>
           rewrite (Hprofile p) in Hp; [discriminate Hp|]
       end.
  all: cbn [app]; set_solver.
Qed.

Lemma search_failure_after_profile_success_witness :
  let env := Sample.env false true false in
  let req := Sample.ask Sample.bearer Sample.rag in
  sel_error (resources_select (client_of env req)
               (or_filter (lit "RAG basics")) 5)
    = Some (Sample.boom "resources: timeout")
  ∧ status (respond env req ∅ 0 ∅) = 500
  ∧ payload (respond env req ∅ 0 ∅)
      = ErrorBody (lit "Failed to fetch resources.")
          (Some (lit "resources: timeout"))
  ∧ ∀ pid q, QueriesInsert pid q ∉ trace (leave env req ∅ 0 ∅).
Proof.
  intros env req. split; [reflexivity|].
  apply (search_failure_after_profile_success env req ∅ 0 ∅
           (or_filter (lit "RAG basics")) 5
           (Sample.boom "resources: timeout")).
  - apply list_elem_of_In. vm_compute. tauto.
  - reflexivity.
  - intros p _. reflexivity.
Defined.

(** C1, as stated, fails: a request without an Authorization header whose
    query is too short is answered 400, not 401. *)
Lemma missing_credential_short_query_is_400 :
  let req := Sample.ask None (JStr (lit "ab")) in
  lacks_credential Sample.healthy req
  ∧ status (respond Sample.healthy req ∅ 0 ∅) = 400.
Proof.
  split; [left; vm_compute; discriminate | reflexivity].
Qed.

(** C1, amended. A request whose credential does not verify to a user is
    answered 401 exactly when it passes the gates placed before the
    credential check: it is not rate limited, its query is valid and the
    collaborator's URL and key are configured. Otherwise one of those gates
    has answered (429, 400 or 500); the answer is never a success. *)
Theorem missing_credential_is_401_past_the_gates
    (env : environment) (req : request) (store : gmap jsstring entry)
    (drawn : nat) (hdrs : gmap jsstring jsstring) :
  lacks_credential env req →
  (status (respond env req store drawn hdrs) = 401
     ↔ rate_limited env req store = false
       ∧ valid_query req = true
       ∧ misconfigured env = false)
  ∧ (status (respond env req store drawn hdrs) = 401 →
       payload (respond env req store drawn hdrs)
         = ErrorBody msg_unauthorized None)
  ∧ (status (respond env req store drawn hdrs) = 429
     ∨ status (respond env req store drawn hdrs) = 400
     ∨ status (respond env req store drawn hdrs) = 500
     ∨ status (respond env req store drawn hdrs) = 401).
Proof.
  unfold lacks_credential, rate_limited, valid_query.
  unfold_handler. split_handler; settle_tests; intros Hlacks;
    try (destruct Hlacks as [Hl|Hl]; congruence);
    (split; [split; [try discriminate; intros _; repeat split
                    | try reflexivity; intros (H1 & H2 & H3); congruence]
            | split; [try discriminate; reflexivity | tauto]]).
Qed.

Lemma missing_credential_is_401_past_the_gates_witness :
  let req := Sample.ask None Sample.rag in
  lacks_credential Sample.healthy req
  ∧ status (respond Sample.healthy req ∅ 0 ∅) = 401.
Proof.
  intros req.
  assert (Hlacks : lacks_credential Sample.healthy req).
  { left. vm_compute. discriminate. }
  split; [exact Hlacks|].
  apply (missing_credential_is_401_past_the_gates Sample.healthy req ∅ 0 ∅
           Hlacks).
  repeat split.
Defined.

(** ** The response assembler *)

Lemma resourcesWithLinks_length (supabase : supabase_client)
    (fetched : option (list resource)) :
  length (resourcesWithLinks supabase fetched) = length (default [] fetched).
Proof. unfold resourcesWithLinks. apply length_map. Qed.

Lemma resourcesWithLinks_lookup (supabase : supabase_client)
    (fetched : option (list resource)) (i : nat) (r : resource) :
  default [] fetched !! i = Some r →
  resourcesWithLinks supabase fetched !! i
    = Some (ResourceLink (r_id r) (r_title r) (r_description r) (r_type r)
              (storage_getPublicUrl supabase (r_storage_path r))).
Proof.
  intros Hr. unfold resourcesWithLinks. by rewrite list_lookup_fmap, Hr.
Qed.

(** C7. In a successful answer, the list of entries is as long as the
    fetched list, and the entry at the place of each fetched record has as
    [url] the storage collaborator's public URL of the record's storage
    path and the record's own id, title, description and type. *)
Theorem every_entry_projects_its_record
    (env : environment) (req : request) (store : gmap jsstring entry)
    (drawn : nat) (hdrs : gmap jsstring jsstring)
    (rid ans : jsstring) (links : list resource_link) :
  payload (respond env req store drawn hdrs) = AnswerBody rid ans links →
  ∃ filter,
    ResourcesSelect filter 5 ∈ trace (leave env req store drawn hdrs)
    ∧ let fetched :=
        default [] (sel_data (resources_select (client_of env req) filter 5)) in
      length links = length fetched
      ∧ ∀ (i : nat) (r : resource),
          fetched !! i = Some r →
          ∃ l, links !! i = Some l
               ∧ l_url l = storage_getPublicUrl (client_of env req)
                             (r_storage_path r)
               ∧ l_id l = r_id r
               ∧ l_title l = r_title r
               ∧ l_description l = r_description r
               ∧ l_type l = r_type r.
Proof.
  unfold_handler. split_handler; intros [= <- <- <-].
  all: eexists; (split; [cbn [app]; repeat constructor|]).
  all: cbn zeta; (split; [apply resourcesWithLinks_length|]).
  all: intros i r Hr; eexists; (split; [by apply resourcesWithLinks_lookup|]).
  all: by repeat split.
Qed.

Lemma every_entry_projects_its_record_witness :
  let req := Sample.ask Sample.bearer Sample.rag in
  let links :=
    resourcesWithLinks (client_of Sample.healthy req)
      (Some [Sample.deck; Sample.video]) in
  payload (respond Sample.healthy req ∅ 0 ∅)
    = AnswerBody (lit "uuid-0") (responseText (lit "RAG basics")) links
  ∧ ∃ filter,
      ResourcesSelect filter 5 ∈ trace (leave Sample.healthy req ∅ 0 ∅)
      ∧ length links
        = length (default [] (sel_data (resources_select
                                          (client_of Sample.healthy req)
                                          filter 5))).
Proof.
  intros req links.
  assert (Hbody : payload (respond Sample.healthy req ∅ 0 ∅)
                  = AnswerBody (lit "uuid-0") (responseText (lit "RAG basics"))
                      links)
    by reflexivity.
  split; [exact Hbody|].
  destruct (every_entry_projects_its_record Sample.healthy req ∅ 0 ∅
              (lit "uuid-0") (responseText (lit "RAG basics")) links Hbody)
    as (filter & Hin & Hlen & _).
  exists filter. split; [exact Hin | exact Hlen].
Defined.

(** ** The input validator *)

Lemma not_a_string_iff (q : jsval) :
  not_a_string q = true ↔ is_string q = false ∨ q = JStr [].
Proof.
  unfold not_a_string, is_string.
  destruct q as [| |b|x|s|items|fields]; cbn;
    try (split; [intros _; by left | by rewrite ?orb_true_r]).
  destruct s as [|c s]; cbn; split; try done; try (intros _; by right).
  intros [H|H]; discriminate H.
Qed.

Lemma bad_length_iff (t : jsstring) :
  bad_length t = false ↔ (3 ≤ length t ≤ 500)%nat.
Proof.
  unfold bad_length, MAX_QUERY_LENGTH. rewrite orb_false_iff.
  rewrite !Nat.ltb_ge. tauto.
Qed.

Lemma msg_not_a_string_text :
  msg_not_a_string = lit "Query must be a non-empty string.".
Proof. reflexivity. Qed.

Lemma msg_bad_length_text :
  msg_bad_length = lit "Query must be between 3 and 500 characters.".
Proof. reflexivity. Qed.

(** C4, as stated, fails: the empty string is present and textual, and is
    refused with the NotAString answer, not with the length answer. *)
Lemma empty_string_is_refused_as_not_a_string :
  let req := Sample.ask Sample.bearer (JStr []) in
  query_of req = JStr []
  ∧ typeof (query_of req) = TString
  ∧ respond Sample.healthy req ∅ 0 ∅
    = Response 400 {[ lit "X-Request-Id" := lit "uuid-0" ]}
        (ErrorBody (lit "Query must be a non-empty string.") None).
Proof. repeat split. Qed.

(** C4, amended. The validator fails with the NotAString answer
    (400, "Query must be a non-empty string.") exactly when the query is
    missing, not a string, or the empty string; for every non-empty string a
    validation failure is the length answer
    (400, "Query must be between 3 and 500 characters."), given exactly when
    the trimmed length is under 3 or over 500. *)
Theorem validation_failures (req : request) (s : hstate) :
  ((validateQuery req s).1 = Sent (ErrorBody msg_not_a_string None)
     ↔ is_string (query_of req) = false ∨ query_of req = JStr [])
  ∧ (∀ str : jsstring, query_of req = JStr str → str ≠ [] →
       ((validateQuery req s).1 = Sent (ErrorBody msg_bad_length None)
          ↔ (length (trim str) < 3 ∨ 500 < length (trim str))%nat)
       ∧ ∀ b, (validateQuery req s).1 = Sent b →
              b = ErrorBody msg_bad_length None)
  ∧ (∀ b, (validateQuery req s).1 = Sent b →
          resStatus (validateQuery req s).2 = 400)
  ∧ msg_not_a_string = lit "Query must be a non-empty string."
  ∧ msg_bad_length = lit "Query must be between 3 and 500 characters.".
Proof.
  split; [|split; [|split; [|split; reflexivity]]].
  - rewrite <- not_a_string_iff. unfold_handler.
    destruct (not_a_string (query_of req)); [done|].
    destruct (bad_length _); cbn [fst snd]; split; discriminate.
  - intros str Hq Hne.
    assert (Hnot : not_a_string (query_of req) = false).
    { rewrite Hq. by destruct str. }
    unfold_handler. rewrite Hnot, Hq. cbn [str_of].
    pose proof (bad_length_iff (trim str)) as Hlen.
    destruct (bad_length (trim str)); cbn [fst snd]; split.
    + split; [intros _ | done].
      destruct (decide (3 ≤ length (trim str) ≤ 500)%nat) as [Hok|Hbad];
        [apply Hlen in Hok; discriminate Hok | lia].
    + by intros b [= <-].
    + split; [discriminate |].
      intros H. assert (3 ≤ length (trim str) ≤ 500)%nat by tauto. lia.
    + discriminate.
  - intros b. unfold_handler.
    destruct (not_a_string _); [done|]. by destruct (bad_length _).
Qed.

Lemma validation_failures_witness :
  let req := Sample.ask Sample.bearer (JStr (lit "ab")) in
  query_of req = JStr (lit "ab")
  ∧ lit "ab" ≠ []
  ∧ (validateQuery req (enter ∅ 0 ∅)).1
    = Sent (ErrorBody (lit "Query must be between 3 and 500 characters.") None).
Proof.
  intros req.
  destruct (validation_failures req (enter ∅ 0 ∅)) as (_ & Hlen & _).
  assert (Hne : lit "ab" ≠ []) by discriminate.
  assert (Hq : query_of req = JStr (lit "ab")) by reflexivity.
  destruct (Hlen (lit "ab") Hq Hne) as [Hiff _].
  split; [reflexivity|]. split; [exact Hne|].
  apply Hiff. left. vm_compute. lia.
Defined.

(** C5. For every string [str] submitted as the query, validation accepts
    exactly when [3 ≤ length (trim str) ≤ 500]; what it hands on is
    [trim str] itself, the state untouched; and the rest of the pipeline
    works with that string: the search filter is built from it, the row
    logged in [queries] holds it, and the answer text embeds it. *)
Theorem accepts_iff_trimmed_length_in_range
    (env : environment) (req : request) (store : gmap jsstring entry)
    (drawn : nat) (hdrs : gmap jsstring jsstring)
    (s : hstate) (str : jsstring) :
  query_of req = JStr str →
  ((∃ t s', validateQuery req s = (Next t, s'))
     ↔ (3 ≤ length (trim str) ≤ 500)%nat)
  ∧ (∀ t s', validateQuery req s = (Next t, s') → t = trim str ∧ s' = s)
  ∧ (∀ filter limit,
       ResourcesSelect filter limit ∈ trace (leave env req store drawn hdrs) →
       filter = or_filter (trim str))
  ∧ (∀ pid q,
       QueriesInsert pid q ∈ trace (leave env req store drawn hdrs) →
       q = trim str)
  ∧ (∀ rid ans links,
       payload (respond env req store drawn hdrs) = AnswerBody rid ans links →
       ans = responseText (trim str)).
Proof.
  intros Hq.
  assert (Hempty : str = [] → ¬ (3 ≤ length (trim str) ≤ 500)%nat).
  { intros ->. cbn. lia. }
  split; [|split; [|split; [|split]]].
  - rewrite <- bad_length_iff. unfold_handler. rewrite Hq. cbn [str_of].
    destruct str as [|c str].
    + cbn. split; [intros (t & s' & H); discriminate H | discriminate].
    + change (not_a_string (JStr (c :: str))) with false. cbn iota.
      destruct (bad_length _); split; try done; try by eauto.
      intros (t & s' & H); discriminate H.
  - intros t s'. unfold_handler. rewrite Hq. cbn [str_of].
    destruct (not_a_string _); [done|].
    destruct (bad_length _); [done|]. by intros [= <- <-].
  - unfold_handler. rewrite Hq. cbn [str_of].
    split_handler; intros filter limit H; by trace_inv H.
  - unfold_handler. rewrite Hq. cbn [str_of].
    split_handler; intros pid q H; by trace_inv H.
  - unfold_handler. rewrite Hq. cbn [str_of].
    split_handler; by intros rid ans links [= <- <- <-].
Qed.

Lemma accepts_iff_trimmed_length_in_range_witness :
  let req := Sample.ask Sample.bearer Sample.rag in
  query_of req = JStr (lit "  RAG basics  ")
  ∧ ∃ t s', validateQuery req (enter ∅ 0 ∅) = (Next t, s')
            ∧ t = lit "RAG basics".
Proof.
  intros req.
  assert (Hq : query_of req = JStr (lit "  RAG basics  ")) by reflexivity.
  split; [exact Hq|].
  destruct (accepts_iff_trimmed_length_in_range Sample.healthy req ∅ 0 ∅
              (enter ∅ 0 ∅) (lit "  RAG basics  ") Hq)
    as (Hacc & Hval & _).
  destruct (proj2 Hacc) as (t & s' & Ht); [vm_compute; lia|].
  exists t, s'. split; [exact Ht|].
  destruct (Hval t s' Ht) as [-> _]. reflexivity.
Defined.


(** ** Trimming *)

Section Trim.

Implicit Types (s l r k : jsstring) (c : N).

Lemma trimStart_all_space l s : all_space l → trimStart (l ++ s) = trimStart s.
Proof.
  induction 1 as [|c l Hc _ IH]; [done|]. cbn. by rewrite Hc.
Qed.

Lemma trimStart_nil_of_all_space l : all_space l → trimStart l = [].
Proof.
  intros Hl. rewrite <- (app_nil_r l). by rewrite trimStart_all_space.
Qed.

Lemma trimStart_clean s :
  (∀ c, head s = Some c → is_space c = false) → trimStart s = s.
Proof.
  destruct s as [|c s]; [done|]. intros H. cbn. by rewrite (H c).
Qed.

(** [trimStart] drops a white-space prefix and stops at the first other
    code unit. *)
Lemma trimStart_split s :
  ∃ l, s = l ++ trimStart s ∧ all_space l
       ∧ ∀ c, head (trimStart s) = Some c → is_space c = false.
Proof.
  induction s as [|c s (l & Hs & Hl & Hh)].
  { exists []. repeat split; [constructor | done]. }
  cbn. destruct (is_space c) eqn:Hc.
  - exists (c :: l). split; [cbn; by rewrite <- Hs|].
    split; [by constructor | done].
  - exists []. split; [done|]. split; [constructor|].
    intros c' [= <-]. exact Hc.
Qed.

Lemma trim_split s :
  ∃ l r, s = l ++ trim s ++ r ∧ all_space l ∧ all_space r
         ∧ no_outer_space (trim s).
Proof.
  destruct (trimStart_split s) as (l & Hs & Hl & Hh).
  destruct (trimStart_split (reverse (trimStart s))) as (r & Hr & Hsp & Hlast).
  exists l, (reverse r). unfold trim, trimEnd.
  assert (Ha : trimStart s
               = reverse (trimStart (reverse (trimStart s))) ++ reverse r).
  { rewrite <- reverse_app, <- Hr. by rewrite reverse_involutive. }
  split; [by rewrite <- Ha|]. split; [done|].
  split; [by apply Forall_reverse|]. split.
  - intros c Hc. apply Hh. rewrite Ha, head_app. by rewrite Hc.
  - intros c. rewrite last_reverse. apply Hlast.
Qed.

Lemma trim_padded l k r :
  all_space l → all_space r → no_outer_space k → trim (l ++ k ++ r) = k.
Proof.
  intros Hl Hr [Hhead Hlast]. unfold trim, trimEnd.
  rewrite trimStart_all_space by done.
  destruct k as [|c k].
  { cbn. rewrite (trimStart_nil_of_all_space r) by done. done. }
  rewrite (trimStart_clean ((c :: k) ++ r)) by (intros c'; apply Hhead).
  rewrite reverse_app, trimStart_all_space by (by apply Forall_reverse).
  rewrite trimStart_clean; [apply reverse_involutive|].
  intros c'. rewrite head_reverse. apply Hlast.
Qed.

Lemma trim_clean k : no_outer_space k → trim k = k.
Proof.
  intros Hk.
  assert (Hnil : all_space []) by constructor.
  pose proof (trim_padded [] k [] Hnil Hnil Hk) as H.
  cbn [app] in H. by rewrite app_nil_r in H.
Qed.

Lemma is_space_not_comma c : is_space c = true → c ≠ 44%N.
Proof. intros Hc ->. discriminate Hc. Qed.

Lemma all_space_comma_free l : all_space l → comma_free l.
Proof.
  unfold comma_free, all_space. rewrite Forall_forall.
  intros Hl Hin. apply Hl in Hin. discriminate Hin.
Qed.

Lemma before_comma_app s rest :
  comma_free s → before_comma (s ++ 44%N :: rest) = s.
Proof.
  unfold comma_free. induction s as [|c s IH]; [done|].
  intros Hs. cbn. destruct (N.eqb_spec c 44) as [->|_].
  - exfalso. apply Hs. by left.
  - f_equal. apply IH. intros Hin. apply Hs. by right.
Qed.

Lemma before_comma_comma_free s : comma_free (before_comma s).
Proof.
  unfold comma_free. induction s as [|c s IH]; [by intros ?%elem_of_nil|].
  cbn. destruct (N.eqb_spec c 44) as [->|Hc]; [by intros ?%elem_of_nil|].
  intros [Heq|Hin]%elem_of_cons; [by symmetry in Heq | by apply IH].
Qed.

Lemma before_comma_whole s : comma_free s → before_comma s = s.
Proof.
  unfold comma_free. induction s as [|c s IH]; [done|].
  intros Hs. cbn. destruct (N.eqb_spec c 44) as [->|_].
  - exfalso. apply Hs. by left.
  - f_equal. apply IH. intros Hin. apply Hs. by right.
Qed.

Lemma trim_comma_free s : comma_free s → comma_free (trim s).
Proof.
  unfold comma_free. intros Hs Hin.
  destruct (trim_split s) as (l & r & Heq & _). apply Hs. rewrite Heq.
  apply elem_of_app. right. apply elem_of_app. by left.
Qed.

End Trim.

(** X1. Trimming twice is trimming once: [s.trim().trim() = s.trim()]. *)
Theorem trim_idempotent (s : jsstring) : trim (trim s) = trim s.
Proof.
  destruct (trim_split s) as (l & r & _ & _ & _ & Hclean).
  by apply trim_clean.
Qed.

(** X2. What the validator hands on is the submitted string without its
    surrounding white space and nothing else: the query is a string
    [l ++ t ++ r] with [l] and [r] white space only, [t] neither starts nor
    ends with white space, and [t] has between 3 and 500 code units. *)
Theorem accepted_query_is_the_core
    (req : request) (s s' : hstate) (t : jsstring) :
  validateQuery req s = (Next t, s') →
  typeof (query_of req) = TString
  ∧ no_outer_space t
  ∧ (3 ≤ length t ≤ 500)%nat
  ∧ ∃ l r, query_of req = JStr (l ++ t ++ r) ∧ all_space l ∧ all_space r.
Proof.
  unfold_handler.
  destruct (not_a_string (query_of req)) eqn:Hnot; [done|].
  destruct (bad_length _) eqn:Hlen; [done|]. intros [= <- <-].
  assert (Hstr : ∃ str, query_of req = JStr str).
  { unfold not_a_string, is_string in Hnot.
    destruct (query_of req); cbn in Hnot;
      rewrite ?orb_true_r in Hnot; try discriminate Hnot. by eexists. }
  destruct Hstr as [str Hq]. rewrite Hq in *. cbn [str_of] in *.
  destruct (trim_split str) as (l & r & Heq & Hl & Hr & Hclean).
  split; [done|]. split; [done|]. split; [by apply bad_length_iff|].
  exists l, r. by rewrite <- Heq.
Qed.

Lemma accepted_query_is_the_core_witness :
  let req := Sample.ask Sample.bearer Sample.rag in
  validateQuery req (enter ∅ 0 ∅) = (Next (lit "RAG basics"), enter ∅ 0 ∅)
  ∧ no_outer_space (lit "RAG basics")
  ∧ (3 ≤ length (lit "RAG basics") ≤ 500)%nat.
Proof.
  intros req.
  assert (Hrun : validateQuery req (enter ∅ 0 ∅)
                 = (Next (lit "RAG basics"), enter ∅ 0 ∅)) by reflexivity.
  split; [exact Hrun|].
  destruct (accepted_query_is_the_core req _ _ _ Hrun) as (_ & Hc & Hlen & _).
  split; [exact Hc | exact Hlen].
Defined.

(** X3. A query made of white space only (and not empty) is refused with
    the length answer: its trimmed length is 0. *)
Theorem blank_query_is_too_short
    (req : request) (s : hstate) (str : jsstring) :
  query_of req = JStr str → str ≠ [] → all_space str →
  trim str = []
  ∧ (validateQuery req s).1 = Sent (ErrorBody msg_bad_length None)
  ∧ resStatus (validateQuery req s).2 = 400.
Proof.
  intros Hq Hne Hsp.
  assert (Htrim : trim str = []).
  { unfold trim, trimEnd. by rewrite (trimStart_nil_of_all_space str). }
  split; [done|]. unfold_handler. rewrite Hq. cbn [str_of]. rewrite Htrim.
  destruct str; [done|]. by cbn.
Qed.

Lemma blank_query_is_too_short_witness :
  let req := Sample.ask Sample.bearer (JStr (lit "     ")) in
  query_of req = JStr (lit "     ")
  ∧ (validateQuery req (enter ∅ 0 ∅)).1
    = Sent (ErrorBody (lit "Query must be between 3 and 500 characters.") None).
Proof.
  intros req.
  assert (Hq : query_of req = JStr (lit "     ")) by reflexivity.
  split; [exact Hq|].
  apply (blank_query_is_too_short req (enter ∅ 0 ∅) (lit "     ") Hq).
  - discriminate.
  - repeat constructor.
Defined.

(** X4. White space around a non-empty query does not change what the
    validator does: a request whose query is [l ++ k ++ r], with [l] and
    [r] white space only, is treated as the request whose query is [k]. *)
Theorem padding_is_ignored
    (req req' : request) (s : hstate) (l k r : jsstring) :
  query_of req = JStr (l ++ k ++ r) →
  query_of req' = JStr k →
  all_space l → all_space r → no_outer_space k → k ≠ [] →
  validateQuery req s = validateQuery req' s.
Proof.
  intros Hq Hq' Hl Hr Hk Hne. unfold_handler. rewrite Hq, Hq'.
  cbn [str_of]. rewrite (trim_padded l k r), (trim_clean k) by done.
  assert (Hnot : ∀ str, str ≠ [] → not_a_string (JStr str) = false).
  { intros str Hstr. by destruct str. }
  rewrite !Hnot; [done | done |].
  intros Happ. apply app_eq_nil in Happ as [_ Happ].
  by apply app_eq_nil in Happ as [Happ _].
Qed.

Lemma padding_is_ignored_witness :
  validateQuery (Sample.ask Sample.bearer Sample.rag) (enter ∅ 0 ∅)
  = validateQuery (Sample.ask None (JStr (lit "RAG basics"))) (enter ∅ 0 ∅).
Proof.
  apply (padding_is_ignored _ _ _ (lit "  ") (lit "RAG basics") (lit "  "));
    try reflexivity; try (repeat constructor); try discriminate.
  - intros c [= <-]. reflexivity.
  - intros c [= <-]. reflexivity.
Defined.

(** ** The client key *)

(** X5. The key of a request is either the peer address [req.ip], or a
    piece [k] of the first entry of X-Forwarded-For: that entry is
    [l ++ k ++ r] with [l] and [r] white space only, and [k] is not empty,
    holds no comma and neither starts nor ends with white space. *)
Theorem client_key_shape (req : request) (k : jsstring) :
  getClientIp req = Some k →
  req_ip req = Some k
  ∨ ∃ h l r, x_forwarded_for req = Some h
             ∧ before_comma h = l ++ k ++ r
             ∧ all_space l ∧ all_space r
             ∧ k ≠ [] ∧ comma_free k ∧ no_outer_space k.
Proof.
  unfold getClientIp. destruct (x_forwarded_for req) as [h|]; [|by left].
  destruct (truthy_string (trim (before_comma h))) eqn:Hk; [|by left].
  intros [= <-]. right.
  destruct (trim_split (before_comma h)) as (l & r & Heq & Hl & Hr & Hclean).
  exists h, l, r. repeat split; try done.
  - intros Hnil. by rewrite Hnil in Hk.
  - apply trim_comma_free, before_comma_comma_free.
  - apply Hclean.
  - apply Hclean.
Qed.

Lemma client_key_shape_witness :
  let req := Request (Some (lit " 203.0.113.9 , 10.0.0.1")) None
               (Some (lit "10.0.0.7")) JUndefined in
  getClientIp req = Some (lit "203.0.113.9")
  ∧ (req_ip req = Some (lit "203.0.113.9")
     ∨ ∃ h l r, x_forwarded_for req = Some h
                ∧ before_comma h = l ++ lit "203.0.113.9" ++ r
                ∧ all_space l ∧ all_space r
                ∧ lit "203.0.113.9" ≠ [] ∧ comma_free (lit "203.0.113.9")
                ∧ no_outer_space (lit "203.0.113.9")).
Proof.
  intros req.
  assert (Hkey : getClientIp req = Some (lit "203.0.113.9")) by reflexivity.
  split; [exact Hkey | exact (client_key_shape req _ Hkey)].
Defined.

(** X6. The first entry of X-Forwarded-For decides the key, whatever the
    peer address and the later entries: with the header
    [l ++ k ++ r ++ tail], where [l] and [r] are white space, [tail] is
    empty or starts with a comma, and [k] is a non-empty token without
    comma or outer white space, the key is [k]. *)
Theorem first_forwarded_entry_is_the_key
    (req : request) (l k r tail : jsstring) :
  x_forwarded_for req = Some (l ++ k ++ r ++ tail) →
  all_space l → all_space r →
  tail = [] ∨ (∃ rest, tail = 44%N :: rest) →
  k ≠ [] → comma_free k → no_outer_space k →
  getClientIp req = Some k.
Proof.
  intros Hh Hl Hr Htail Hne Hcomma Hclean. unfold getClientIp. rewrite Hh.
  assert (Hfree : comma_free (l ++ k ++ r)).
  { unfold comma_free. rewrite !elem_of_app.
    intros [H|[H|H]]; [by apply (all_space_comma_free l) | done
                       | by apply (all_space_comma_free r)]. }
  assert (Hfirst : before_comma (l ++ k ++ r ++ tail) = l ++ k ++ r).
  { destruct Htail as [->|[rest ->]].
    - rewrite app_nil_r. by apply before_comma_whole.
    - replace (l ++ k ++ r ++ 44%N :: rest)
        with ((l ++ k ++ r) ++ 44%N :: rest) by (by rewrite <- !app_assoc).
      by apply before_comma_app. }
  cbn zeta. rewrite Hfirst, trim_padded by done. by destruct k.
Qed.

Lemma first_forwarded_entry_is_the_key_witness :
  getClientIp (Request (Some (lit " 203.0.113.9 , 10.0.0.1")) None
                 (Some (lit "10.0.0.7")) JUndefined)
  = Some (lit "203.0.113.9").
Proof.
  apply (first_forwarded_entry_is_the_key _ (lit " ") (lit "203.0.113.9")
           (lit " ") (lit ", 10.0.0.1")).
  - reflexivity.
  - repeat constructor.
  - repeat constructor.
  - right. by eexists.
  - discriminate.
  - unfold comma_free. intros Hin. apply list_elem_of_In in Hin.
    vm_compute in Hin. repeat (destruct Hin as [Hin|Hin]; [discriminate Hin|]).
    exact Hin.
  - split; intros c [= <-]; reflexivity.
Defined.

(** X7. When the first entry of X-Forwarded-For is empty or white space
    only, the header is ignored and the key is the peer address. *)
Theorem blank_forwarded_entry_falls_back (req : request) (h : jsstring) :
  x_forwarded_for req = Some h →
  all_space (before_comma h) →
  getClientIp req = req_ip req.
Proof.
  intros Hh Hsp. unfold getClientIp. rewrite Hh. cbn zeta.
  unfold trim, trimEnd. by rewrite (trimStart_nil_of_all_space _ Hsp).
Qed.

Lemma blank_forwarded_entry_falls_back_witness :
  getClientIp (Request (Some (lit "  , 203.0.113.9")) None
                 (Some (lit "10.0.0.7")) JUndefined)
  = Some (lit "10.0.0.7").
Proof.
  set (req := Request _ _ _ _).
  change (getClientIp req = req_ip req).
  apply (blank_forwarded_entry_falls_back req (lit "  , 203.0.113.9")).
  - reflexivity.
  - repeat constructor.
Defined.

(** ** The rate-limit table over runs of calls *)

Section Table.

Implicit Types (store : gmap jsstring entry) (k ip : jsstring) (now : Z)
  (calls : list (jsstring * Z)).

Lemma isRateLimited_local now k store1 store2 :
  store1 !! k = store2 !! k →
  (isRateLimited now k store1).1 = (isRateLimited now k store2).1
  ∧ (isRateLimited now k store1).2 !! k = (isRateLimited now k store2).2 !! k.
Proof.
  intros Hk. unfold isRateLimited. rewrite Hk.
  destruct (store2 !! k) as [e|]; [destruct (_ >? _)|];
    cbn; by rewrite !lookup_insert_eq.
Qed.

Lemma isRateLimited_dom now ip store :
  dom (isRateLimited now ip store).2 = {[ ip ]} ∪ dom store.
Proof.
  unfold isRateLimited.
  destruct (store !! ip) as [e|]; [destruct (_ >? _)|];
    cbn; by rewrite dom_insert_L.
Qed.

Lemma run_calls_cons ip now calls store :
  run_calls ((ip, now) :: calls) store
  = ((isRateLimited now ip store).1
       :: (run_calls calls (isRateLimited now ip store).2).1,
     (run_calls calls (isRateLimited now ip store).2).2).
Proof.
  cbn [run_calls]. destruct (isRateLimited now ip store) as [b store'].
  cbn [fst snd]. by destruct (run_calls calls store').
Qed.

Lemma run_calls_app calls1 calls2 store :
  run_calls (calls1 ++ calls2) store
  = ((run_calls calls1 store).1
       ++ (run_calls calls2 (run_calls calls1 store).2).1,
     (run_calls calls2 (run_calls calls1 store).2).2).
Proof.
  revert store. induction calls1 as [|[ip t] calls1 IH]; intros store.
  { cbn. by destruct (run_calls calls2 store). }
  cbn [app]. rewrite !run_calls_cons, IH. by cbn [fst snd app].
Qed.

Lemma run_calls_length calls store :
  length (run_calls calls store).1 = length calls.
Proof.
  revert store. induction calls as [|[ip t] calls IH]; intros store; [done|].
  rewrite run_calls_cons. cbn. by rewrite IH.
Qed.

Lemma answers_for_app k calls1 calls2 rs1 rs2 :
  length rs1 = length calls1 →
  answers_for k (calls1 ++ calls2) (rs1 ++ rs2)
  = answers_for k calls1 rs1 ++ answers_for k calls2 rs2.
Proof.
  revert rs1. induction calls1 as [|[ip t] calls1 IH]; intros [|r rs1] Hlen;
    try discriminate Hlen; [done|].
  cbn. injection Hlen as Hlen. destruct (decide (ip = k)); cbn;
    by rewrite IH.
Qed.

(** The entry of a key inside its window: the start stays, the count grows
    by one with every call of the key. *)
Lemma run_calls_entry k t0 :
  ∀ calls store c,
    store !! k = Some (Entry t0 c) →
    (∀ t, (k, t) ∈ calls → t - t0 ≤ RATE_LIMIT_WINDOW_MS) →
    (run_calls calls store).2 !! k
    = Some (Entry t0 (c + Z.of_nat (calls_of k calls))).
Proof.
  induction calls as [|[ip t] calls IH]; intros store c Hk Hin.
  { cbn. rewrite Hk. do 2 f_equal. lia. }
  assert (Hrest : ∀ t', (k, t') ∈ calls → t' - t0 ≤ RATE_LIMIT_WINDOW_MS).
  { intros t' Ht'. apply Hin. by right. }
  rewrite run_calls_cons. cbn [snd calls_of].
  destruct (decide (ip = k)) as [->|Hne].
  - rewrite (isRateLimited_within t k store (Entry t0 c));
      [| done | cbn; apply Hin; by left].
    cbn [snd windowStart count].
    rewrite (IH _ (c + 1)); [| by rewrite lookup_insert_eq | done].
    do 2 f_equal. lia.
  - apply IH; [|done]. by rewrite isRateLimited_other.
Qed.

End Table.

(** X8. Clients do not affect each other: the answers given to a key, and
    the entry the key ends with, are those of a run holding the key's calls
    only, from any table that has the same entry for the key. *)
Theorem keys_are_independent
    (k : jsstring) (calls : list (jsstring * Z))
    (store1 store2 : gmap jsstring entry) :
  store1 !! k = store2 !! k →
  answers_for k calls (run_calls calls store1).1
    = (run_calls (calls_to k calls) store2).1
  ∧ (run_calls calls store1).2 !! k
    = (run_calls (calls_to k calls) store2).2 !! k.
Proof.
  revert store1 store2.
  induction calls as [|[ip t] calls IH]; intros store1 store2 Hk; [done|].
  rewrite run_calls_cons. unfold calls_to. cbn [answers_for fst snd].
  destruct (decide (ip = k)) as [->|Hne].
  - rewrite filter_cons_True by done. fold (calls_to k calls).
    rewrite run_calls_cons. cbn [fst snd].
    destruct (isRateLimited_local t k store1 store2 Hk) as [Hans Hent].
    destruct (IH _ _ Hent) as [IH1 IH2]. split; [|done].
    by rewrite Hans, IH1.
  - rewrite filter_cons_False by done. fold (calls_to k calls).
    apply IH. by rewrite isRateLimited_other.
Qed.

Lemma keys_are_independent_witness :
  let k := lit "10.0.0.7" in
  let calls := (k, 0) :: Sample.burst in
  let other : gmap jsstring entry := {[ lit "10.0.0.9" := Entry 5 40 ]} in
  (∅ : gmap jsstring entry) !! k = other !! k
  ∧ answers_for k calls (run_calls calls ∅).1
    = (run_calls (calls_to k calls) other).1.
Proof.
  intros k calls other.
  assert (Hk : (∅ : gmap jsstring entry) !! k = other !! k) by reflexivity.
  split; [exact Hk|].
  apply (keys_are_independent k calls ∅ other Hk).
Defined.

(** X9. The table never forgets a key: after a run of calls its keys are
    those it had before together with every key that called. *)
Theorem table_only_grows
    (calls : list (jsstring * Z)) (store : gmap jsstring entry) :
  dom (run_calls calls store).2 = dom store ∪ list_to_set calls.*1.
Proof.
  revert store. induction calls as [|[ip t] calls IH]; intros store.
  { cbn [run_calls snd]. rewrite fmap_nil, list_to_set_nil.
    by rewrite (right_id_L ∅ (∪)). }
  rewrite run_calls_cons. cbn [snd]. rewrite IH, isRateLimited_dom.
  rewrite fmap_cons, list_to_set_cons. cbn [fst].
  by rewrite (assoc_L (∪)), (comm_L (∪) (dom store)).
Qed.

(** The entry and the answers of a key from the call that opens its
    window on. *)
Lemma window_entry
    (k : jsstring) (t0 : Z) (rest : list (jsstring * Z))
    (store : gmap jsstring entry) :
  opens_window t0 (store !! k) →
  (∀ t, (k, t) ∈ rest → t - t0 ≤ RATE_LIMIT_WINDOW_MS) →
  (run_calls ((k, t0) :: rest) store).2 !! k
  = Some (Entry t0 (Z.of_nat (calls_of k ((k, t0) :: rest)))).
Proof.
  intros Hopen Hin. rewrite run_calls_cons. cbn [snd calls_of].
  rewrite decide_True by done.
  rewrite (isRateLimited_opens _ _ _ Hopen). cbn [snd].
  rewrite (run_calls_entry k t0 rest _ 1);
    [| by rewrite lookup_insert_eq | done].
  do 2 f_equal. lia.
Qed.

Lemma window_answers
    (k : jsstring) (t0 : Z) (rest : list (jsstring * Z))
    (store : gmap jsstring entry) (i : nat) (limited : bool) :
  opens_window t0 (store !! k) →
  (∀ t, (k, t) ∈ rest → t - t0 ≤ RATE_LIMIT_WINDOW_MS) →
  answers_for k ((k, t0) :: rest) (run_calls ((k, t0) :: rest) store).1 !! i
    = Some limited →
  limited = bool_decide (30 ≤ i)%nat.
Proof.
  intros Hopen Hin. rewrite run_calls_cons. cbn [fst answers_for].
  rewrite decide_True by done.
  rewrite (isRateLimited_opens _ _ _ Hopen). cbn [fst snd].
  destruct i as [|i]; cbn [lookup list_lookup].
  { intros [= <-]. by rewrite bool_decide_eq_false_2 by lia. }
  intros Hi.
  destruct (run_calls_within k t0 rest (<[k := new_window t0]> store) 1)
    as [_ Hans]; [by rewrite lookup_insert_eq | done |].
  rewrite (Hans i limited Hi). unfold RATE_LIMIT_MAX_REQUESTS.
  destruct (decide (30 ≤ S i)%nat) as [Hge|Hlt].
  - rewrite bool_decide_eq_true_2 by done. apply Z.gtb_lt. lia.
  - rewrite bool_decide_eq_false_2 by done.
    rewrite Z.gtb_ltb. apply Z.ltb_ge. lia.
Qed.

(** X10. Inside a window every call of the key is counted, the denied ones
    too, and none of them moves the start of the window: after the call
    that opens the window at [t0] and the calls that follow within 60000 ms
    of it, the key's entry is [{ windowStart: t0, count: n }] with [n] the
    number of calls the key has made. *)
Theorem denied_calls_are_counted
    (k : jsstring) (t0 : Z) (rest : list (jsstring * Z))
    (store : gmap jsstring entry) :
  opens_window t0 (store !! k) →
  (∀ t, (k, t) ∈ rest → t - t0 ≤ RATE_LIMIT_WINDOW_MS) →
  (run_calls ((k, t0) :: rest) store).2 !! k
  = Some (Entry t0 (Z.of_nat (calls_of k ((k, t0) :: rest)))).
Proof. apply window_entry. Qed.

Lemma denied_calls_are_counted_witness :
  let k := lit "10.0.0.7" in
  opens_window 0 ((∅ : gmap jsstring entry) !! k)
  ∧ (run_calls ((k, 0) :: replicate 39 (k, 60000)) ∅).2 !! k
    = Some (Entry 0 40).
Proof.
  intros k.
  assert (Hopen : opens_window 0 ((∅ : gmap jsstring entry) !! k)) by exact I.
  split; [exact Hopen|].
  apply (denied_calls_are_counted k 0 (replicate 39 (k, 60000)) ∅ Hopen).
  intros t Ht. apply elem_of_replicate in Ht as [Ht _]. injection Ht as ->.
  unfold RATE_LIMIT_WINDOW_MS. lia.
Defined.

(** X11. Inside a window the ceiling is sharp and final: the call of the
    key with index [i] (the opening call has index 0) is denied exactly when
    [30 ≤ i]; once over the ceiling, every further call in the window is
    denied. *)
Theorem denied_exactly_past_the_ceiling
    (k : jsstring) (t0 : Z) (rest : list (jsstring * Z))
    (store : gmap jsstring entry) (i : nat) (limited : bool) :
  opens_window t0 (store !! k) →
  (∀ t, (k, t) ∈ rest → t - t0 ≤ RATE_LIMIT_WINDOW_MS) →
  answers_for k ((k, t0) :: rest) (run_calls ((k, t0) :: rest) store).1 !! i
    = Some limited →
  limited = bool_decide (30 ≤ i)%nat.
Proof. apply window_answers. Qed.

Lemma denied_exactly_past_the_ceiling_witness :
  let k := lit "10.0.0.7" in
  let calls := (k, 0) :: replicate 39 (k, 60000) in
  answers_for k calls (run_calls calls ∅).1 !! 37%nat = Some true
  ∧ true = bool_decide (30 ≤ 37)%nat.
Proof.
  intros k calls.
  assert (Hi : answers_for k calls (run_calls calls ∅).1 !! 37%nat
               = Some true) by reflexivity.
  assert (Hopen : opens_window 0 ((∅ : gmap jsstring entry) !! k)) by exact I.
  split; [exact Hi|].
  apply (denied_exactly_past_the_ceiling k 0 (replicate 39 (k, 60000)) ∅
           37 true Hopen); [|exact Hi].
  intros t Ht. apply elem_of_replicate in Ht as [Ht _]. injection Ht as ->.
  unfold RATE_LIMIT_WINDOW_MS. lia.
Defined.

Lemma answers_for_length (k : jsstring) (calls : list (jsstring * Z))
    (rs : list bool) :
  length rs = length calls →
  length (answers_for k calls rs) = calls_of k calls.
Proof.
  revert rs. induction calls as [|[ip t] calls IH]; intros [|r rs] Hlen;
    try discriminate Hlen; [done|].
  injection Hlen as Hlen. cbn. destruct (decide (ip = k)); cbn;
    by rewrite IH.
Qed.

(** X12. The window is counted from the key's first call, not from the
    clock: a key that has used up to 30 calls in one window and calls again
    more than 60000 ms after that window's start opens a new window and is
    allowed up to 30 calls more, however close in time the two bursts are.
    All the calls of the two bursts are allowed. *)
Theorem two_bursts_across_a_window_end
    (k : jsstring) (t0 t1 : Z) (rest1 rest2 : list (jsstring * Z))
    (store : gmap jsstring entry) :
  opens_window t0 (store !! k) →
  (∀ t, (k, t) ∈ rest1 → t - t0 ≤ RATE_LIMIT_WINDOW_MS) →
  t1 - t0 > RATE_LIMIT_WINDOW_MS →
  (∀ t, (k, t) ∈ rest2 → t - t1 ≤ RATE_LIMIT_WINDOW_MS) →
  (calls_of k ((k, t0) :: rest1) ≤ 30)%nat →
  (calls_of k ((k, t1) :: rest2) ≤ 30)%nat →
  let calls := ((k, t0) :: rest1) ++ (k, t1) :: rest2 in
  let answers := answers_for k calls (run_calls calls store).1 in
  length answers
    = (calls_of k ((k, t0) :: rest1) + calls_of k ((k, t1) :: rest2))%nat
  ∧ ∀ limited, limited ∈ answers → limited = false.
Proof.
  intros Hopen Hin1 Hlate Hin2 Hn1 Hn2 calls answers. subst calls answers.
  set (first := (k, t0) :: rest1) in *. set (second := (k, t1) :: rest2) in *.
  rewrite run_calls_app. cbn [fst].
  rewrite answers_for_app by apply run_calls_length.
  assert (Hopen2 : opens_window t1 ((run_calls first store).2 !! k)).
  { unfold first. rewrite window_entry by done. cbn. lia. }
  assert (Hl1 : length (answers_for k first (run_calls first store).1)
                = calls_of k first)
    by apply answers_for_length, run_calls_length.
  assert (Hl2 : length (answers_for k second
                          (run_calls second (run_calls first store).2).1)
                = calls_of k second)
    by apply answers_for_length, run_calls_length.
  split; [by rewrite length_app, Hl1, Hl2|].
  intros limited [Hl|Hl]%elem_of_app;
    apply list_elem_of_lookup in Hl as [i Hi];
    pose proof (lookup_lt_Some _ _ _ Hi) as Hlt.
  - rewrite (window_answers k t0 rest1 store i limited Hopen Hin1 Hi).
    apply bool_decide_eq_false_2. lia.
  - rewrite (window_answers k t1 rest2 _ i limited Hopen2 Hin2 Hi).
    apply bool_decide_eq_false_2. lia.
Qed.

Lemma two_bursts_across_a_window_end_witness :
  let k := lit "10.0.0.7" in
  let calls := ((k, 0) :: replicate 29 (k, 60000))
                 ++ (k, 60001) :: replicate 29 (k, 60002) in
  length (answers_for k calls (run_calls calls ∅).1) = 60%nat
  ∧ ∀ limited,
      limited ∈ answers_for k calls (run_calls calls ∅).1 → limited = false.
Proof.
  intros k calls.
  assert (Hopen : opens_window 0 ((∅ : gmap jsstring entry) !! k)) by exact I.
  apply (two_bursts_across_a_window_end k 0 60001
           (replicate 29 (k, 60000)) (replicate 29 (k, 60002)) ∅ Hopen).
  - intros t Ht. apply elem_of_replicate in Ht as [Ht _]. injection Ht as ->.
    unfold RATE_LIMIT_WINDOW_MS. lia.
  - unfold RATE_LIMIT_WINDOW_MS. lia.
  - intros t Ht. apply elem_of_replicate in Ht as [Ht _]. injection Ht as ->.
    unfold RATE_LIMIT_WINDOW_MS. lia.
  - vm_compute. lia.
  - vm_compute. lia.
Defined.

(** ** The order of the gates *)

(** X13. The rate limit is the first gate: the answer is 429 exactly when
    the limiter denies the request's key, even if the query is invalid or
    the credential missing; a 429 has the rate-limit text and is sent
    without any call to a collaborator. *)
Theorem rate_limit_comes_first
    (env : environment) (req : request) (store : gmap jsstring entry)
    (drawn : nat) (hdrs : gmap jsstring jsstring) :
  (status (respond env req store drawn hdrs) = 429
     ↔ rate_limited env req store = true)
  ∧ (rate_limited env req store = true →
       payload (respond env req store drawn hdrs)
         = ErrorBody msg_rate_limited None
       ∧ trace (leave env req store drawn hdrs) = []).
Proof.
  unfold rate_limited. unfold_handler. split_handler; settle_tests;
    (split; [split; intros H; try done; try discriminate H
            | intros H; try discriminate H; by split]).
Qed.

Lemma rate_limit_comes_first_witness :
  let req := Sample.ask None (JStr []) in
  let store : gmap jsstring entry := {[ lit "10.0.0.7" := Entry 1699999990000 30 ]} in
  rate_limited Sample.healthy req store = true
  ∧ status (respond Sample.healthy req store 0 ∅) = 429.
Proof.
  intros req store.
  assert (H : rate_limited Sample.healthy req store = true) by reflexivity.
  split; [exact H|].
  by apply (rate_limit_comes_first Sample.healthy req store 0 ∅).
Defined.

(** X14. Every request with a non-empty key is counted, whatever becomes
    of it afterwards (refused query, missing credential, failing
    collaborator, success): the table the handler leaves is the one
    [isRateLimited] produces for the key, and no other key's entry is
    touched. *)
Theorem every_keyed_request_is_counted
    (env : environment) (req : request) (store : gmap jsstring entry)
    (drawn : nat) (hdrs : gmap jsstring jsstring) (ip : jsstring) :
  getClientIp req = Some ip → ip ≠ [] →
  rateLimitStore (leave env req store drawn hdrs)
    = (isRateLimited (dateNow env) ip store).2
  ∧ ∀ k, k ≠ ip →
         rateLimitStore (leave env req store drawn hdrs) !! k = store !! k.
Proof.
  intros Hip Hne.
  assert (Hstore : rateLimitStore (leave env req store drawn hdrs)
                   = (isRateLimited (dateNow env) ip store).2).
  { unfold_handler. rewrite Hip.
    assert (Ht : truthy_string ip = true) by (by destruct ip).
    rewrite Ht. split_handler; settle_tests; reflexivity. }
  split; [done|]. intros k Hk. rewrite Hstore. by apply isRateLimited_other.
Qed.

Lemma every_keyed_request_is_counted_witness :
  let req := Sample.ask None (JStr []) in
  getClientIp req = Some (lit "10.0.0.7")
  ∧ rateLimitStore (leave Sample.healthy req ∅ 0 ∅) !! lit "10.0.0.7"
    = Some (Entry 1700000000000 1).
Proof.
  intros req.
  assert (Hip : getClientIp req = Some (lit "10.0.0.7")) by reflexivity.
  split; [exact Hip|].
  destruct (every_keyed_request_is_counted Sample.healthy req ∅ 0 ∅
              (lit "10.0.0.7") Hip) as [-> _]; [discriminate|].
  reflexivity.
Defined.

(** X15. No collaborator is called for a request that a gate refuses: the
    call log is empty exactly when the request is rate limited, its query
    is invalid, or the collaborator's URL or key is not configured. *)
Theorem no_call_before_the_gates
    (env : environment) (req : request) (store : gmap jsstring entry)
    (drawn : nat) (hdrs : gmap jsstring jsstring) :
  trace (leave env req store drawn hdrs) = []
  ↔ rate_limited env req store = true
    ∨ valid_query req = false
    ∨ misconfigured env = true.
Proof.
  unfold rate_limited, valid_query. unfold_handler.
  split_handler; settle_tests; cbn [app];
    (split; [intros H; try discriminate H; tauto
            | intros [H|[H|H]]; try discriminate H; reflexivity]).
Qed.

Lemma no_call_before_the_gates_witness :
  trace (leave Sample.healthy (Sample.ask Sample.bearer (JStr (lit "ab")))
           ∅ 0 ∅) = [].
Proof.
  apply (no_call_before_the_gates Sample.healthy
           (Sample.ask Sample.bearer (JStr (lit "ab"))) ∅ 0 ∅).
  right. left. reflexivity.
Defined.

(** X16. A request whose credential does not verify reaches no data
    collaborator: the only call it can cause is [auth.getUser()], made with
    the Authorization header when that header is not empty. *)
Theorem unverified_caller_reaches_no_data
    (env : environment) (req : request) (store : gmap jsstring entry)
    (drawn : nat) (hdrs : gmap jsstring jsstring) (ev : event) :
  lacks_credential env req →
  ev ∈ trace (leave env req store drawn hdrs) →
  ev = AuthGetUser (if truthy_opt (authorization req)
                    then authorization req else None).
Proof.
  unfold lacks_credential. unfold_handler.
  split_handler; intros Hlacks Hev; trace_inv Hev; try reflexivity;
    destruct Hlacks as [Hl|Hl]; congruence.
Qed.

Lemma unverified_caller_reaches_no_data_witness :
  let req := Sample.ask None Sample.rag in
  lacks_credential Sample.healthy req
  ∧ trace (leave Sample.healthy req ∅ 0 ∅) = [AuthGetUser None]
  ∧ AuthGetUser None = AuthGetUser (if truthy_opt (authorization req)
                                    then authorization req else None).
Proof.
  intros req.
  assert (Hlacks : lacks_credential Sample.healthy req).
  { left. vm_compute. discriminate. }
  split; [exact Hlacks|]. split; [reflexivity|].
  apply (unverified_caller_reaches_no_data Sample.healthy req ∅ 0 ∅
           (AuthGetUser None) Hlacks).
  apply list_elem_of_In. vm_compute. tauto.
Defined.
